(** * HotSpot GC core: scanner tasks, marking stats cache, shadow region pool,
      the Shenandoah old-generation state machine and the AOT mirror query.

    Shallow embedding of
      - src/hotspot/share/gc/parallel/psCompactionManager.hpp
      - src/hotspot/share/gc/shenandoah/shenandoahOldGeneration.hpp
      - src/hotspot/share/cds/aotClassInitializer.cpp
    Addresses and [size_t] values are integers in [0, 2^64) with the
    wrap-around written out; [assert] is the HotSpot debug-build assertion. *)

From Stdlib Require Import ZArith Lia Bool.
From stdpp Require Import base numbers option list gmap strings.

Local Open Scope Z_scope.

(* ===================================================================== *)
(** * Part I: definitions                                                 *)
(* ===================================================================== *)

(** ** Machine words and assertions *)

Module Machine.

(** [size_t] and [uintptr_t] on an LP64 target. *)
Definition word_bits : Z := 64.
Definition modulus : Z := 2 ^ word_bits.

Definition wrap (z : Z) : Z := z mod modulus.

Definition in_range (z : Z) : Prop := 0 <= z < modulus.

(** The two flavours of a HotSpot build: the assertion macro is compiled
    in only when ASSERT is defined. *)
Inductive Build : Set := Debug | Product.

(** Outcome of a call: a value, or a tripped assertion with its message. *)
Inductive result (A : Type) : Type :=
| Ok (a : A)
| AssertionFailure (msg : string).

Arguments Ok {A} a.
Arguments AssertionFailure {A} msg.

#[export] Instance result_ret : MRet result := fun A a => Ok a.
#[export] Instance result_bind : MBind result := fun A B k m =>
  match m with
  | Ok a => k a
  | AssertionFailure msg => AssertionFailure msg
  end.

(** Modelled from the spec: the [assert] macro (utilities/debug.hpp) is not
    among the sources. Protocol violations are "detected by assertions in
    debug builds"; a product build does not evaluate the condition. *)
Definition vmassert (b : Build) (cond : bool) (msg : string) : result unit :=
  match b with
  | Debug => if cond then Ok () else AssertionFailure msg
  | Product => Ok ()
  end.

(** Modelled from the spec: [is_aligned] (utilities/align.hpp) is not among
    the sources. An address is aligned to a power-of-two [alignment] when
    the bits below it are zero (mask [alignment - 1]). *)
Definition is_aligned (p alignment : Z) : bool :=
  Z.land p (alignment - 1) =? 0.

End Machine.

Import Machine.

(** ** PSScannerTask (psCompactionManager.hpp, lines 60-90) *)

Module PSScannerTask.

Record t : Set := { _holder : Z }.

Definition PartialArrayStateBit : Z := 1.

(** [PSScannerTask()] *)
Definition empty : t := {| _holder := 0 |}.

(** [bool is_partial_array_state() const] *)
Definition is_partial_array_state (task : t) : bool :=
  negb (Z.land (_holder task) PartialArrayStateBit =? 0).

(** [bool is_oop() const] *)
Definition is_oop (task : t) : bool := negb (is_partial_array_state task).

(** [explicit PSScannerTask(oop obj)] *)
Definition from_oop (b : Build) (obj : Z) : result t :=
  let task := {| _holder := obj |} in
  vmassert b (negb (_holder task =? 0))
    "Not allowed to set null task queue element" ;;
  vmassert b (is_aligned (_holder task) 1) "Misaligned" ;;
  mret task.

(** [explicit PSScannerTask(PartialArrayState* p)] *)
Definition from_partial_array_state (b : Build) (p : Z) : result t :=
  let task := {| _holder := Z.lor p PartialArrayStateBit |} in
  vmassert b (is_aligned p 1) "Misaligned" ;;
  mret task.

(** [oop obj() const] *)
Definition obj (b : Build) (task : t) : result Z :=
  vmassert b (is_oop task) "Trying to read partial array state as oop" ;;
  mret (_holder task).

(** [PartialArrayState* to_partial_array_state() const]: the holder, as a
    [char*], moved back by the tag bit. *)
Definition to_partial_array_state (b : Build) (task : t) : result Z :=
  vmassert b (is_partial_array_state task)
    "Trying to read oop as partial array state" ;;
  mret (wrap (_holder task - PartialArrayStateBit)).

End PSScannerTask.

(** ** ParCompactionManager (psCompactionManager.hpp, lines 92-276) *)

Module ParCompactionManager.

(** *** MarkingStatsCache: worker-local per-region live words *)

Module MarkingStatsCache.

Definition num_entries : Z := 1024.
Definition entry_mask : Z := num_entries - 1.

Record CacheEntry : Set := { region_id : Z; live_words : Z }.

(** [CacheEntry entries[num_entries] = {};] *)
Definition zero_entry : CacheEntry := {| region_id := 0; live_words := 0 |}.
Definition entries0 : list CacheEntry :=
  replicate (Z.to_nat num_entries) zero_entry.

(** The shared summary data: live words per region, a region without a
    record counting as zero; [add_live_obj] is the atomic add, here in
    the order the worker performs it. *)
Definition live_obj (data : gmap Z Z) (r : Z) : Z := default 0 (data !! r).

Definition add_live_obj (data : gmap Z Z) (r words : Z) : gmap Z Z :=
  <[r := wrap (live_obj data r + words)]> data.

Record state : Type := { entries : list CacheEntry; summary_data : gmap Z Z }.

Definition initial : state := {| entries := entries0; summary_data := ∅ |}.

Definition entry_at (es : list CacheEntry) (index : Z) : CacheEntry :=
  default zero_entry (es !! Z.to_nat index).

(** Modelled from the spec: the bodies of [push], [evict] and [evict_all]
    (psCompactionManager.inline.hpp) are not among the sources. The cache
    is direct-mapped, "keyed by region_id mod capacity". *)
Definition slot_of (region : Z) : Z := region mod num_entries.

(** Modelled from the spec: [evict(index)] flushes the accumulated count of
    the slot to the shared per-region counter with an add. *)
Definition evict (index : Z) (s : state) : state :=
  let e := entry_at (entries s) index in
  {| entries := entries s;
     summary_data := add_live_obj (summary_data s) (region_id e) (live_words e) |}.

(** Modelled from the spec: [push(region_id, live_words)] accumulates into
    the matching slot if present; else it evicts the prior entry into the
    shared counter and replaces it. *)
Definition push (region words : Z) (s : state) : state :=
  let index := slot_of region in
  let e := entry_at (entries s) index in
  if decide (region_id e = region) then
    {| entries := <[Z.to_nat index :=
                     {| region_id := region;
                        live_words := wrap (live_words e + words) |}]> (entries s);
       summary_data := summary_data s |}
  else
    let s' := evict index s in
    {| entries := <[Z.to_nat index :=
                     {| region_id := region; live_words := words |}]> (entries s');
       summary_data := summary_data s' |}.

(** Evicting one slot and leaving it empty. *)
Definition evict_and_clear (s : state) (index : Z) : state :=
  let s' := evict index s in
  {| entries := <[Z.to_nat index := zero_entry]> (entries s');
     summary_data := summary_data s' |}.

(** Eviction of the slots in a given order. *)
Definition evict_in_order (order : list Z) (s : state) : state :=
  foldl evict_and_clear s order.

(** Modelled from the spec: [evict_all()] evicts every entry (slots
    0 .. num_entries - 1). *)
Definition evict_all (s : state) : state :=
  evict_in_order (seqZ 0 num_entries) s.

(** A sequence of [push(region_id, live_words)] calls, first call first. *)
Definition push_all (ps : list (Z * Z)) (s : state) : state :=
  foldl (fun s p => push p.1 p.2 s) s ps.

(** Sum of the live words pushed for one region. *)
Definition pushed_for (r : Z) (ps : list (Z * Z)) : Z :=
  foldr (fun p acc => if decide (p.1 = r) then p.2 + acc else acc) 0 ps.

(** The live words the cache still holds for one region. *)
Definition contribution (r : Z) (e : CacheEntry) : Z :=
  if decide (region_id e = r) then live_words e else 0.

Definition cached_for (r : Z) (es : list CacheEntry) : Z :=
  foldr (fun e acc => contribution r e + acc) 0 es.

(** What the shared counter of a region will read once the cache is
    flushed. *)
Definition pending_total (r : Z) (s : state) : Z :=
  wrap (live_obj (summary_data s) r + cached_for r (entries s)).

(** The shared counters hold [size_t] values. *)
Definition counters_in_range (data : gmap Z Z) : Prop :=
  ∀ r v, data !! r = Some v → in_range v.

(** The array keeps its size, the shared counters stay [size_t] values. *)
Definition well_formed (s : state) : Prop :=
  length (entries s) = Z.to_nat num_entries
  ∧ counters_in_range (summary_data s).

End MarkingStatsCache.

(** *** Shadow region pool *)

(** [static const size_t InvalidShadow = ~0;] the [int] value [~0]
    converted to [size_t]. *)
Definition InvalidShadow : Z := wrap (Z.lnot 0).

(** [_shadow_region_array], used as a stack: the head is the top. The
    monitor serialises the calls, so each call is one atomic step. *)
Definition shadow_region_array : Type := list Z.

(** Modelled from the spec: the body of [pop_shadow_region_mt_safe]
    (psCompactionManager.cpp) is not among the sources. "pop() (LIFO,
    returns a free region index or the invalid sentinel if empty)"; the
    spec gives the declared [region_ptr] argument no part in it. *)
Definition pop_shadow_region_mt_safe (region_ptr : Z) (pool : shadow_region_array)
  : Z * shadow_region_array :=
  match pool with
  | [] => (InvalidShadow, [])
  | shadow_region :: rest => (shadow_region, rest)
  end.

(** Modelled from the spec: [push_shadow_region] and
    [push_shadow_region_mt_safe] (psCompactionManager.cpp); "push(index)
    (returns a region to the pool)". *)
Definition push_shadow_region (shadow_region : Z) (pool : shadow_region_array)
  : shadow_region_array := shadow_region :: pool.

Definition push_shadow_region_mt_safe (shadow_region : Z)
  (pool : shadow_region_array) : shadow_region_array :=
  push_shadow_region shadow_region pool.

(** Modelled from the spec: [remove_all_shadow_regions]
    (psCompactionManager.cpp); "remove_all() (drains the pool)". *)
Definition remove_all_shadow_regions (pool : shadow_region_array)
  : shadow_region_array := [].

(** Sequences of pool operations and what each one did. *)
Inductive op : Set := Push (i : Z) | Pop (region_ptr : Z) | RemoveAll.

Inductive event : Set :=
| Pushed (i : Z)
| Popped (i : Z)
| Exhausted
| Drained (n : nat).

#[export] Instance event_eq_dec : EqDecision event.
Proof. solve_decision. Defined.

Definition step (o : op) (pool : shadow_region_array)
  : event * shadow_region_array :=
  match o with
  | Push i => (Pushed i, push_shadow_region_mt_safe i pool)
  | Pop region_ptr =>
      let '(r, pool') := pop_shadow_region_mt_safe region_ptr pool in
      (match pool with [] => Exhausted | _ => Popped r end, pool')
  | RemoveAll => (Drained (length pool), remove_all_shadow_regions pool)
  end.

Fixpoint run (ops : list op) (pool : shadow_region_array)
  : list event * shadow_region_array :=
  match ops with
  | [] => ([], pool)
  | o :: ops' =>
      let '(e, pool') := step o pool in
      let '(es, pool'') := run ops' pool' in
      (e :: es, pool'')
  end.

Fixpoint pushes (es : list event) : nat :=
  match es with
  | [] => 0
  | Pushed _ :: es' => S (pushes es')
  | _ :: es' => pushes es'
  end.

Fixpoint successful_pops (es : list event) : nat :=
  match es with
  | [] => 0
  | Popped _ :: es' => S (successful_pops es')
  | _ :: es' => successful_pops es'
  end.

Fixpoint drained (es : list event) : nat :=
  match es with
  | [] => 0
  | Drained n :: es' => (n + drained es')%nat
  | _ :: es' => drained es'
  end.

(** No index is returned by pop twice without a push of it in between. *)
Definition no_double_pop (es : list event) : Prop :=
  ∀ l1 l2 l3 i, es = l1 ++ Popped i :: l2 ++ Popped i :: l3 → Pushed i ∈ l2.

(** The callers' discipline: an index is only pushed while it is not in
    the pool (whoever pushes it owns it). *)
Fixpoint pushes_fresh (ops : list op) (pool : shadow_region_array) : bool :=
  match ops with
  | [] => true
  | o :: ops' =>
      match o with Push i => bool_decide (i ∉ pool) | _ => true end
      && pushes_fresh ops' (step o pool).2
  end.

(** *** The per-worker cursor over the shadow regions *)

(** The [size_t _next_shadow_region] member of a compaction manager. *)
Record t : Set := { _next_shadow_region : Z }.

(** [inline size_t next_shadow_region()] *)
Definition next_shadow_region (cm : t) : Z := _next_shadow_region cm.

(** [inline void set_next_shadow_region(size_t record)] *)
Definition set_next_shadow_region (record : Z) (cm : t) : t :=
  {| _next_shadow_region := record |}.

(** [inline size_t move_next_shadow_region_by(size_t workers)]:
    [_next_shadow_region += workers; return next_shadow_region();] *)
Definition move_next_shadow_region_by (workers : Z) (cm : t) : Z * t :=
  let cm' := {| _next_shadow_region := wrap (_next_shadow_region cm + workers) |} in
  (next_shadow_region cm', cm').

(** [k] calls of [move_next_shadow_region_by(workers)] in a row. *)
Fixpoint move_repeatedly (k : nat) (workers : Z) (cm : t) : t :=
  match k with
  | O => cm
  | S k' => move_repeatedly k' workers (move_next_shadow_region_by workers cm).2
  end.

End ParCompactionManager.

(** ** ShenandoahOldGeneration (shenandoahOldGeneration.hpp) *)

Module ShenandoahOldGeneration.

(** [enum State] *)
Inductive State : Set :=
| IDLE | FILLING | BOOTSTRAPPING | MARKING | WAITING_FOR_EVAC | WAITING_FOR_FILL.

#[export] Instance State_eq_dec : EqDecision State.
Proof. solve_decision. Defined.

(** The private members of the class; the two pointers are addresses. *)
Record t : Set := {
  _coalesce_and_fill_region_array : Z;
  _old_heuristics : Z;
  _state : State
}.


(** [State state() const] *)
Definition state (g : t) : State := _state g.

(** [bool can_start_gc()] *)
Definition can_start_gc (g : t) : bool :=
  bool_decide (_state g = IDLE) || bool_decide (_state g = WAITING_FOR_FILL).








(** Modelled from the spec: what the SATB transfer reads and writes lives in
    the heap, its regions, the marking context and the SATB queue set, none
    of them among the sources. Here: whether an old-generation mark is in
    progress, the regions that are trash, the marked objects, and the SATB
    buffers (a record is the address of an object). Regions have
    [2 ^ region_size_bytes_shift] bytes. *)
Record Heap : Type := {
  concurrent_old_mark_in_progress : bool;
  region_size_bytes_shift : Z;
  trash_regions : gset Z;
  marked_objects : gset Z;
  satb_buffers : list Z
}.

(** Region 2 is trash, the object at 0x100040 is marked, and the SATB
    buffers hold four records, two of them in region 2: once with an old
    mark in progress, once without. *)
Definition marking_heap : Heap :=
  {| concurrent_old_mark_in_progress := true;
     region_size_bytes_shift := 20; trash_regions := {[ 2 ]};
     marked_objects := {[ 1048640 ]};
     satb_buffers := [1048576; 2097152; 1048640; 2097216] |}.

Definition quiet_heap : Heap :=
  {| concurrent_old_mark_in_progress := false;
     region_size_bytes_shift := 20; trash_regions := {[ 2 ]};
     marked_objects := {[ 1048640 ]};
     satb_buffers := [1048576; 2097152; 1048640; 2097216] |}.

(** [bool is_concurrent_mark_in_progress()] *)
Definition is_concurrent_mark_in_progress (h : Heap) : bool :=
  concurrent_old_mark_in_progress h.

(** The region an address lies in, and the two ways a SATB record is
    stale: it points into a trash region, or its referent is marked. *)
Definition region_index (h : Heap) (addr : Z) : Z :=
  Z.shiftr addr (region_size_bytes_shift h).

Definition in_trash_region (h : Heap) (addr : Z) : bool :=
  bool_decide (region_index h addr ∈ trash_regions h).

Definition is_marked (h : Heap) (addr : Z) : bool :=
  bool_decide (addr ∈ marked_objects h).

Definition stale (h : Heap) (addr : Z) : bool :=
  in_trash_region h addr || is_marked h addr.

Definition set_satb_buffers (h : Heap) (records : list Z) : Heap :=
  {| concurrent_old_mark_in_progress := concurrent_old_mark_in_progress h;
     region_size_bytes_shift := region_size_bytes_shift h;
     trash_regions := trash_regions h;
     marked_objects := marked_objects h;
     satb_buffers := records |}.

(** Modelled from the spec: the body of [transfer_pointers_from_satb]
    (shenandoahOldGeneration.cpp) is not among the sources. It "runs once
    after reference-update, only if old-generation marking was in
    progress; purges sequential store buffer records pointing into regions
    that are being discarded (trashed) or whose referents have already
    been marked". The header's comment says the same: the buffers are
    purged "if (and only if) an old generation mark is in progress", and
    the flush "also filters out oops which have already been marked". *)
Definition transfer_pointers_from_satb (h : Heap) : Heap :=
  if is_concurrent_mark_in_progress h then
    set_satb_buffers h (filter (λ addr, stale h addr = false) (satb_buffers h))
  else h.

(** Modelled from the spec: the phases around the purge, in the order the
    header's comment gives them. The purge runs "during the final update
    references phase", when the trashed regions can still be told ("before
    they are recycled"); then the trash is recycled; then "the _next_
    cycle" marks, and "will crash during its marking phase" on a record
    that has become invalid. *)
Inductive Phase : Set :=
| FINAL_UPDATE_REFS | RECYCLE_TRASH | NEXT_MARKING | MARKING_DONE.

(** The heap, the regions recycled so far (a pointer into one of them
    dangles), and the phase to run next. *)
Record Collector : Type := {
  heap : Heap;
  recycled_regions : gset Z;
  phase : Phase
}.

(** A step of the cycle goes on, or the marking crashes on a record. *)
Inductive outcome : Type :=
| Running (c : Collector)
| Crashed (addr : Z).

Definition dangling (c : Collector) (addr : Z) : bool :=
  bool_decide (region_index (heap c) addr ∈ recycled_regions c).

(** Modelled from the spec: the final update references phase, whose driver
    is not among the sources; the SATB transfer "runs once after
    reference-update". *)
Definition final_update_refs (c : Collector) : Collector :=
  {| heap := transfer_pointers_from_satb (heap c);
     recycled_regions := recycled_regions c;
     phase := RECYCLE_TRASH |}.

(** Modelled from the spec: the recycling of the trash regions, not among
    the sources; the regions are given out again, so that a pointer into
    one of them no longer points at the object it was enqueued for. *)
Definition recycle_trash (c : Collector) : Collector :=
  {| heap :=
       {| concurrent_old_mark_in_progress := concurrent_old_mark_in_progress (heap c);
          region_size_bytes_shift := region_size_bytes_shift (heap c);
          trash_regions := ∅;
          marked_objects := marked_objects (heap c);
          satb_buffers := satb_buffers (heap c) |};
     recycled_regions := recycled_regions c ∪ trash_regions (heap c);
     phase := NEXT_MARKING |}.

(** Modelled from the spec: the next cycle's marking, not among the
    sources. The SATB barrier is on "for the entirety of the old generation
    marking phase": the old-generation mark, if one is in progress, reads
    the SATB buffers; it crashes on the first record that dangles ("the
    _next_ cycle will crash during its marking phase"), and otherwise marks
    the records and empties the buffers. With no old mark in progress
    nothing reads them. *)
Definition mark_from_satb (c : Collector) : outcome :=
  if is_concurrent_mark_in_progress (heap c) then
    match filter (λ addr, dangling c addr = true) (satb_buffers (heap c)) with
    | addr :: _ => Crashed addr
    | [] =>
        Running
          {| heap :=
               {| concurrent_old_mark_in_progress := true;
                  region_size_bytes_shift := region_size_bytes_shift (heap c);
                  trash_regions := trash_regions (heap c);
                  marked_objects :=
                    marked_objects (heap c) ∪ list_to_set (satb_buffers (heap c));
                  satb_buffers := [] |};
             recycled_regions := recycled_regions c;
             phase := MARKING_DONE |}
    end
  else
    Running {| heap := heap c; recycled_regions := recycled_regions c;
               phase := MARKING_DONE |}.

Definition cycle_step (c : Collector) : outcome :=
  match phase c with
  | FINAL_UPDATE_REFS => Running (final_update_refs c)
  | RECYCLE_TRASH => Running (recycle_trash c)
  | NEXT_MARKING => mark_from_satb c
  | MARKING_DONE => Running c
  end.

Fixpoint cycle_steps (n : nat) (c : Collector) : outcome :=
  match n with
  | O => Running c
  | S n' =>
      match cycle_step c with
      | Running c' => cycle_steps n' c'
      | Crashed addr => Crashed addr
      end
  end.

(** A collector about to run the given phase on the given heap, with
    nothing recycled yet. *)
Definition collector_at (ph : Phase) (h : Heap) : Collector :=
  {| heap := h; recycled_regions := ∅; phase := ph |}.

End ShenandoahOldGeneration.

(** ** AOTClassInitializer (aotClassInitializer.cpp) *)

Module AOTClassInitializer.

(** What the query reads of an [InstanceKlass]: its name, whether it is
    initialized, the address of its direct superclass (0 for none), and
    whether the klass lies in the archive builder's buffer space. *)
Record InstanceKlass : Set := {
  name : string;
  is_initialized : bool;
  java_super : Z;
  is_in_buffer_space : bool
}.

(** The collaborators: [CDSConfig::is_initing_classes_at_dump_time()] and
    [vmClasses::Enum_klass()]. *)
Record Env : Set := {
  is_initing_classes_at_dump_time : bool;
  Enum_klass : Z
}.

(** [bool AOTClassInitializer::can_archive_initialized_mirror(InstanceKlass* ik)] *)
Definition can_archive_initialized_mirror (b : Build) (env : Env)
  (ik : InstanceKlass) : result bool :=
  vmassert b (negb (is_in_buffer_space ik)) "must be source klass" ;;
  if negb (is_initing_classes_at_dump_time env) then
    mret false
  else if is_initialized ik && (java_super ik =? Enum_klass env) then
    mret true
  else if is_initialized ik &&
          (String.eqb (name ik) "jdk/internal/constant/PrimitiveClassDescImpl" ||
           String.eqb (name ik) "jdk/internal/constant/ReferenceClassDescImpl" ||
           String.eqb (name ik) "java/lang/constant/ConstantDescs") then
    mret true
  else
    mret false.

(** A dump-time configuration with java.lang.Enum at 0x7000, and the
    initialized enum sun.invoke.util.Wrapper. *)
Definition dump_time_env : Env :=
  {| is_initing_classes_at_dump_time := true; Enum_klass := 28672 |}.

Definition wrapper_klass : InstanceKlass :=
  {| name := "sun/invoke/util/Wrapper"; is_initialized := true;
     java_super := 28672; is_in_buffer_space := false |}.

Definition wrapper_support_classes : list string :=
  ["jdk/internal/constant/PrimitiveClassDescImpl";
   "jdk/internal/constant/ReferenceClassDescImpl";
   "java/lang/constant/ConstantDescs"]%string.

End AOTClassInitializer.

(** ** Klass (klass.inline.hpp) *)

Module Klass.

(** What the inline functions read of the class loader data. *)
Record ClassLoaderData : Set := {
  cld_holder : Z;
  cld_class_loader : Z;
  cld_has_class_mirror_holder : bool;
  cld_is_alive : bool
}.

(** What the inline functions read of a klass; [_prototype_header] is the
    value of the mark word. *)
Record t : Set := {
  class_loader_data : ClassLoaderData;
  is_hidden : bool;
  is_abstract : bool;
  is_interface : bool;
  _prototype_header : Z
}.

(** [inline oop Klass::klass_holder() const] *)
Definition klass_holder (k : t) : Z := cld_holder (class_loader_data k).

(** [inline bool Klass::is_non_strong_hidden() const] *)
Definition is_non_strong_hidden (k : t) : bool :=
  is_hidden k && cld_has_class_mirror_holder (class_loader_data k).

(** [inline bool Klass::is_loader_alive() const] *)
Definition is_loader_alive (k : t) : bool := cld_is_alive (class_loader_data k).

(** [inline oop Klass::class_loader() const] *)
Definition class_loader (k : t) : Z := cld_class_loader (class_loader_data k).

(** [inline bool Klass::needs_narrow_id() const] *)
Definition needs_narrow_id (k : t) : bool :=
  negb (is_abstract k) && negb (is_interface k).

Section PrototypeHeader.

(** The flag [UseCompactObjectHeaders], and [markWord::narrow_klass()]
    (oops/markWord.hpp, not among the sources) as a function of the mark
    word's value. *)
Variable UseCompactObjectHeaders : bool.
Variable narrow_klass : Z → Z.

(** [inline markWord Klass::prototype_header() const], on an LP64 target. *)
Definition prototype_header (b : Build) (k : t) : result Z :=
  vmassert b UseCompactObjectHeaders "only use with compact object headers" ;;
  vmassert b (0 <? narrow_klass (_prototype_header k))
    "Klass: invalid prototype" ;;
  mret (_prototype_header k).

(** [inline void Klass::set_prototype_header(markWord header)] *)
Definition set_prototype_header (b : Build) (header : Z) (k : t) : result t :=
  vmassert b UseCompactObjectHeaders "only with compact headers" ;;
  mret {| class_loader_data := class_loader_data k;
          is_hidden := is_hidden k;
          is_abstract := is_abstract k;
          is_interface := is_interface k;
          _prototype_header := header |}.

End PrototypeHeader.

(** A concrete class with an empty prototype header, and a mark word layout
    with the narrow klass id in the bits from 42 up. *)
Definition plain_klass : t :=
  {| class_loader_data :=
       {| cld_holder := 4096; cld_class_loader := 8192;
          cld_has_class_mirror_holder := false; cld_is_alive := true |};
     is_hidden := false; is_abstract := false; is_interface := false;
     _prototype_header := 0 |}.

Definition narrow_klass_above_42 (mark : Z) : Z := Z.shiftr mark 42.

End Klass.

(** ** libCreationTimeHelper.c *)

Module CreationTimeHelper.

Definition STATX_BASIC_STATS : Z := 2047.   (* 0x000007ffU *)
Definition STATX_BTIME : Z := 2048.         (* 0x00000800U *)

(** From <linux/fcntl.h>. *)
Definition AT_FDCWD : Z := -100.
Definition AT_SYMLINK_NOFOLLOW : Z := 256.

(** [struct my_statx_timestamp] *)
Record my_statx_timestamp : Set := {
  tv_sec : Z;
  tv_nsec : Z;
  __reserved : Z
}.

(** [struct my_statx] *)
Record my_statx : Set := {
  stx_mask : Z;
  stx_blksize : Z;
  stx_attributes : Z;
  stx_nlink : Z;
  stx_uid : Z;
  stx_gid : Z;
  stx_mode : Z;
  __statx_pad1 : list Z;
  stx_ino : Z;
  stx_size : Z;
  stx_blocks : Z;
  stx_attributes_mask : Z;
  stx_atime : my_statx_timestamp;
  stx_btime : my_statx_timestamp;
  stx_ctime : my_statx_timestamp;
  stx_mtime : my_statx_timestamp;
  stx_rdev_major : Z;
  stx_rdev_minor : Z;
  stx_dev_major : Z;
  stx_dev_minor : Z;
  __statx_pad2 : list Z
}.

(** An unsigned field of [n] bytes, each byte [byte]; the same bytes read
    as a signed field. *)
Fixpoint filled (n : nat) (byte : Z) : Z :=
  match n with
  | O => 0
  | S n' => byte + 256 * filled n' byte
  end.

Definition filled_signed (n : nat) (byte : Z) : Z :=
  let u := filled n byte in
  if u <? 2 ^ (8 * Z.of_nat n - 1) then u else u - 2 ^ (8 * Z.of_nat n).

Definition filled_timestamp (byte : Z) : my_statx_timestamp :=
  {| tv_sec := filled_signed 8 byte;
     tv_nsec := filled 4 byte;
     __reserved := filled_signed 4 byte |}.

(** [memset(&stx, byte, sizeof(stx))] *)
Definition memset_statx (byte : Z) : my_statx :=
  {| stx_mask := filled 4 byte;
     stx_blksize := filled 4 byte;
     stx_attributes := filled 8 byte;
     stx_nlink := filled 4 byte;
     stx_uid := filled 4 byte;
     stx_gid := filled 4 byte;
     stx_mode := filled 2 byte;
     __statx_pad1 := [filled 2 byte];
     stx_ino := filled 8 byte;
     stx_size := filled 8 byte;
     stx_blocks := filled 8 byte;
     stx_attributes_mask := filled 8 byte;
     stx_atime := filled_timestamp byte;
     stx_btime := filled_timestamp byte;
     stx_ctime := filled_timestamp byte;
     stx_mtime := filled_timestamp byte;
     stx_rdev_major := filled 4 byte;
     stx_rdev_minor := filled 4 byte;
     stx_dev_major := filled 4 byte;
     stx_dev_minor := filled 4 byte;
     __statx_pad2 := replicate 14 (filled 8 byte) |}.

(** [typedef int statx_func(int dirfd, const char *pathname, int flags,
    unsigned int mask, struct my_statx *statxbuf)]: the return value and
    the buffer as the call leaves it. *)
Definition statx_func : Type := Z → string → Z → Z → my_statx → Z * my_statx.

(** What the function calls: [dlsym] of a symbol name (None for NULL), and
    the JNI function [GetStringUTFChars] on a string handle (None for NULL). *)
Record Env : Type := {
  dlsym : string → option statx_func;
  GetStringUTFChars : Z → option string
}.

(** The calls with an effect outside the function, in the order made. *)
Inductive event : Set :=
| Printf (text : string)
| GetChars (file : Z)
| Statx (dirfd : Z) (pathname : string) (flags : Z) (mask : Z)
| ReleaseChars (file : Z) (chars : string).

Definition newline : string := String (Ascii.ascii_of_nat 10) EmptyString.

(** [Java_CreationTimeHelper_linuxIsCreationTimeSupported(env, cls, file)],
    with [linux] for [defined(__linux__)], the handle 0 for a NULL
    [jstring], and DEBUG not defined: the [jboolean] returned and the calls
    made. *)
Definition linuxIsCreationTimeSupported (linux : bool) (env : Env) (file : Z)
  : bool * list event :=
  if linux then
    let stx := memset_statx 191 in
    let atflag := AT_SYMLINK_NOFOLLOW in
    let mask := Z.lor STATX_BASIC_STATS STATX_BTIME in
    match dlsym env "statx" with
    | None => (false, [])
    | Some my_statx_func =>
        if file =? 0 then
          (false, [Printf ("input file error!" +:+ newline)])
        else
          let utf := GetStringUTFChars env file in
          match utf with
          | None =>
              (false, [GetChars file;
                       Printf ("jstring convert to char array error!" +:+ newline)])
          | Some utfChars =>
              let '(ret, stx') := my_statx_func AT_FDCWD utfChars atflag mask stx in
              let released :=
                if negb (file =? 0) && bool_decide (is_Some utf)
                then [ReleaseChars file utfChars] else [] in
              let calls :=
                [GetChars file; Statx AT_FDCWD utfChars atflag mask] ++ released in
              if negb (ret =? 0) then (false, calls)
              else if negb (Z.land (stx_mask stx') STATX_BTIME =? 0) then (true, calls)
              else (false, calls)
          end
    end
  else (false, []).

(** The character arrays obtained from [GetStringUTFChars] and those given
    back, as a trace shows them. *)
Fixpoint acquired (env : Env) (calls : list event) : list (Z * string) :=
  match calls with
  | [] => []
  | GetChars file :: calls' =>
      match GetStringUTFChars env file with
      | Some chars => (file, chars) :: acquired env calls'
      | None => acquired env calls'
      end
  | _ :: calls' => acquired env calls'
  end.

Fixpoint released (calls : list event) : list (Z * string) :=
  match calls with
  | [] => []
  | ReleaseChars file chars :: calls' => (file, chars) :: released calls'
  | _ :: calls' => released calls'
  end.

(** The path names handed to [statx]. *)
Fixpoint statx_paths (calls : list event) : list string :=
  match calls with
  | [] => []
  | Statx _ pathname _ _ :: calls' => pathname :: statx_paths calls'
  | _ :: calls' => statx_paths calls'
  end.

(** A [statx] that fills the buffer with all bits set (the birth time
    among them), one that clears it, one that fails, and one that reports
    success without writing the buffer. *)
Definition statx_all_bits : statx_func := λ _ _ _ _ _, (0, memset_statx 255).
Definition statx_no_bits : statx_func := λ _ _ _ _ _, (0, memset_statx 0).
Definition statx_failing : statx_func := λ _ _ _ _ buf, (-1, buf).
Definition statx_silent : statx_func := λ _ _ _ _ buf, (0, buf).

(** An environment with the given [statx] (if any) in which the handle 7 is
    the string with the characters /tmp/f and the handle 9 has none. *)
Definition env_with (f : option statx_func) : Env :=
  {| dlsym := λ symbol, if String.eqb symbol "statx" then f else None;
     GetStringUTFChars := λ file, if file =? 7 then Some "/tmp/f"%string else None |}.

End CreationTimeHelper.

(* ===================================================================== *)
(** * Part II: properties                                                 *)
(* ===================================================================== *)

(** ** Words, alignment and the result monad *)

Section MachineFacts.

Lemma modulus_eq : modulus = 18446744073709551616.
Proof. reflexivity. Qed.

Lemma wrap_in_range (z : Z) : in_range z → wrap z = z.
Proof. intros [? ?]. unfold wrap. by apply Z.mod_small. Qed.

Lemma wrap_range (z : Z) : in_range (wrap z).
Proof. unfold in_range, wrap. apply Z.mod_pos_bound. by rewrite modulus_eq. Qed.

Lemma wrap_wrap (z : Z) : wrap (wrap z) = wrap z.
Proof. apply wrap_in_range, wrap_range. Qed.

Lemma wrap_add_l (a b : Z) : wrap (wrap a + b) = wrap (a + b).
Proof. unfold wrap. by rewrite Z.add_mod_idemp_l by (by rewrite modulus_eq). Qed.

Lemma wrap_add_r (a b : Z) : wrap (a + wrap b) = wrap (a + b).
Proof. unfold wrap. by rewrite Z.add_mod_idemp_r by (by rewrite modulus_eq). Qed.

(** The low bit of an address, as the mask with 1 reads it. *)
Lemma land_1_testbit (p : Z) : (Z.land p 1 =? 0) = negb (Z.testbit p 0).
Proof.
  change 1 with (Z.ones 1). rewrite Z.land_ones by lia.
  change (2 ^ 1) with 2. rewrite Zmod_odd, Z.bit0_odd.
  by destruct (Z.odd p).
Qed.

(** Alignment to one byte holds of every address. *)
Lemma is_aligned_1 (p : Z) : is_aligned p 1 = true.
Proof. unfold is_aligned. simpl. by rewrite Z.land_0_r. Qed.

(** Alignment to [2 ^ k] bytes is divisibility by [2 ^ k]. *)
Lemma is_aligned_pow2 (p k : Z) :
  0 <= k → is_aligned p (2 ^ k) = true ↔ p mod 2 ^ k = 0.
Proof.
  intros Hk. unfold is_aligned.
  replace (2 ^ k - 1) with (Z.ones k) by (rewrite Z.ones_equiv; lia).
  rewrite Z.land_ones by done. apply Z.eqb_eq.
Qed.

(** An address aligned to at least two bytes has a zero low bit. *)
Lemma aligned_low_bit (p k : Z) :
  1 <= k → is_aligned p (2 ^ k) = true → Z.testbit p 0 = false.
Proof.
  intros Hk Hal. apply is_aligned_pow2 in Hal; [| lia].
  rewrite Z.bit0_odd.
  assert (Hdiv : (2 | p)).
  { apply Z.divide_trans with (2 ^ k).
    - exists (2 ^ (k - 1)). rewrite Z.mul_comm, <- Z.pow_succ_r by lia.
      f_equal. lia.
    - apply Z.mod_divide; [ lia | done ]. }
  destruct Hdiv as [q ->]. by rewrite Z.mul_comm, Z.odd_mul.
Qed.

Lemma lor_tag_bit (p : Z) : Z.testbit p 0 = false → Z.lor p 1 = p + 1.
Proof.
  intros Hbit.
  assert (Hland : Z.land p 1 = 0).
  { apply Z.eqb_eq. by rewrite land_1_testbit, Hbit. }
  by rewrite <- Z.lxor_lor, <- Z.add_nocarry_lxor.
Qed.

Lemma vmassert_true (b : Build) (msg : string) : vmassert b true msg = Ok ().
Proof. by destruct b. Qed.

Lemma vmassert_debug_false (msg : string) :
  vmassert Debug false msg = AssertionFailure msg.
Proof. done. Qed.

End MachineFacts.

(** ** PSScannerTask: the tag in the low-order bit *)

Section ScannerTask.

Import PSScannerTask.

Lemma is_partial_array_state_testbit (task : t) :
  is_partial_array_state task = Z.testbit (_holder task) 0.
Proof.
  unfold is_partial_array_state, PartialArrayStateBit.
  rewrite land_1_testbit. apply negb_involutive.
Qed.

Lemma is_oop_testbit (task : t) :
  is_oop task = negb (Z.testbit (_holder task) 0).
Proof. unfold is_oop. by rewrite is_partial_array_state_testbit. Qed.

Lemma from_partial_array_state_ok (b : Build) (p : Z) :
  from_partial_array_state b p = Ok {| _holder := Z.lor p PartialArrayStateBit |}.
Proof.
  unfold from_partial_array_state. by rewrite is_aligned_1, vmassert_true.
Qed.

Lemma from_oop_ok (b : Build) (o : Z) :
  o ≠ 0 → from_oop b o = Ok {| _holder := o |}.
Proof.
  intros Hnz. unfold from_oop. cbn [_holder].
  apply Z.eqb_neq in Hnz. rewrite Hnz. cbn [negb].
  by rewrite is_aligned_1, !vmassert_true.
Qed.

Lemma tagged_holder_bit (p : Z) : Z.testbit (Z.lor p PartialArrayStateBit) 0 = true.
Proof. rewrite Z.lor_spec. apply orb_true_r. Qed.

(** C2: a PartialArrayState pointer aligned to at least two bytes makes a
    task that is a partial array state, is not an oop, and gives the
    pointer back; a non-null oop aligned to at least two bytes makes a task
    that is an oop, is not a partial array state, and gives the oop back;
    which of the two a task is, is the low-order bit of its holder. *)
Theorem scanner_task_tag_round_trip (b : Build) (a k : Z) :
  in_range a → 1 <= k → is_aligned a (2 ^ k) = true →
  (∃ task, from_partial_array_state b a = Ok task
           ∧ is_partial_array_state task = true
           ∧ is_oop task = false
           ∧ to_partial_array_state b task = Ok a)
  ∧ (a ≠ 0 →
     ∃ task, from_oop b a = Ok task
             ∧ is_oop task = true
             ∧ is_partial_array_state task = false
             ∧ obj b task = Ok a)
  ∧ (∀ task, is_partial_array_state task = Z.testbit (_holder task) 0
             ∧ is_oop task = negb (Z.testbit (_holder task) 0)).
Proof.
  intros Hrange Hk Hal.
  pose proof (aligned_low_bit a k Hk Hal) as Hbit.
  split; [| split].
  - eexists. split; [ apply from_partial_array_state_ok |].
    assert (Hpas : is_partial_array_state {| _holder := Z.lor a PartialArrayStateBit |} = true)
      by (rewrite is_partial_array_state_testbit; apply tagged_holder_bit).
    split; [ done |]. split; [ unfold is_oop; by rewrite Hpas |].
    unfold to_partial_array_state. rewrite Hpas, vmassert_true.
    cbn [_holder]. unfold PartialArrayStateBit. rewrite lor_tag_bit by done.
    replace (a + 1 - 1) with a by lia. cbn. f_equal. by apply wrap_in_range.
  - intros Hnz. eexists. split; [ by apply from_oop_ok |].
    assert (Hoop : is_oop {| _holder := a |} = true)
      by (rewrite is_oop_testbit; cbn [_holder]; by rewrite Hbit).
    split; [ done |]. split.
    + unfold is_oop in Hoop. by apply negb_true_iff in Hoop.
    + unfold obj. by rewrite Hoop, vmassert_true.
  - intros task. split;
      [ apply is_partial_array_state_testbit | apply is_oop_testbit ].
Qed.

(** The round trip at the address 0x1000, aligned to 8 bytes. *)
Lemma scanner_task_tag_round_trip_witness :
  (∃ task, from_partial_array_state Debug 4096 = Ok task
           ∧ is_partial_array_state task = true
           ∧ is_oop task = false
           ∧ to_partial_array_state Debug task = Ok 4096)
  ∧ (4096 ≠ 0 →
     ∃ task, from_oop Debug 4096 = Ok task
             ∧ is_oop task = true
             ∧ is_partial_array_state task = false
             ∧ obj Debug task = Ok 4096)
  ∧ (∀ task, is_partial_array_state task = Z.testbit (_holder task) 0
             ∧ is_oop task = negb (Z.testbit (_holder task) 0)).
Proof.
  apply (scanner_task_tag_round_trip Debug 4096 3).
  - unfold in_range. rewrite modulus_eq. lia.
  - lia.
  - reflexivity.
Defined.

(** C4: the alignment assertion of both constructors is written with the
    alignment 1, which every address meets: it never trips. At the odd
    address 0x1001 both constructors of a debug build return a task; the
    task made from the oop reads as a partial array state, and the task
    made from the PartialArrayState pointer gives back 0x1000. *)
Theorem scanner_task_alignment_assert_vacuous :
  (∀ (b : Build) (p : Z), vmassert b (is_aligned p 1) "Misaligned" = Ok ())
  ∧ from_oop Debug 4097 = Ok {| _holder := 4097 |}
  ∧ is_oop {| _holder := 4097 |} = false
  ∧ obj Debug {| _holder := 4097 |}
    = AssertionFailure "Trying to read partial array state as oop"
  ∧ from_partial_array_state Debug 4097 = Ok {| _holder := 4097 |}
  ∧ to_partial_array_state Debug {| _holder := 4097 |} = Ok 4096.
Proof.
  split; [ intros b p; by rewrite is_aligned_1, vmassert_true |].
  repeat split; reflexivity.
Qed.

(** C5: [obj()] asserts [is_oop()] and [to_partial_array_state()] asserts
    [is_partial_array_state()]. On a task of the matching variant the
    accessor returns (in every build); on a task of the other variant the
    assertion trips and no value is returned. *)
Theorem scanner_task_accessors_assert_tag (b : Build) (task : t) :
  (is_oop task = true →
     obj b task = Ok (_holder task)
     ∧ to_partial_array_state Debug task
       = AssertionFailure "Trying to read oop as partial array state")
  ∧ (is_partial_array_state task = true →
     to_partial_array_state b task = Ok (wrap (_holder task - PartialArrayStateBit))
     ∧ obj Debug task
       = AssertionFailure "Trying to read partial array state as oop").
Proof.
  split; intros Htag.
  - split; [ unfold obj; by rewrite Htag, vmassert_true |].
    unfold to_partial_array_state.
    unfold is_oop in Htag. apply negb_true_iff in Htag. by rewrite Htag.
  - split; [ unfold to_partial_array_state; by rewrite Htag, vmassert_true |].
    unfold obj, is_oop. by rewrite Htag.
Qed.

(** The accessors on the oop at 0x2000 and on the tagged pointer 0x3001. *)
Lemma scanner_task_accessors_assert_tag_witness :
  (obj Product {| _holder := 8192 |} = Ok 8192
   ∧ to_partial_array_state Debug {| _holder := 8192 |}
     = AssertionFailure "Trying to read oop as partial array state")
  ∧ (to_partial_array_state Product {| _holder := 12289 |} = Ok 12288
     ∧ obj Debug {| _holder := 12289 |}
       = AssertionFailure "Trying to read partial array state as oop").
Proof.
  split.
  - apply (proj1 (scanner_task_accessors_assert_tag Product {| _holder := 8192 |})).
    reflexivity.
  - apply (proj2 (scanner_task_accessors_assert_tag Product {| _holder := 12289 |})).
    reflexivity.
Defined.

End ScannerTask.

(** ** MarkingStatsCache: nothing pushed is lost or counted twice *)

Section StatsCache.

Import ParCompactionManager.MarkingStatsCache.

Lemma num_entries_eq : Z.to_nat num_entries = 1024%nat.
Proof. reflexivity. Qed.

(** The slot of the spec's [mod] is the slot of the source's [entry_mask]. *)
Lemma slot_of_mask (region : Z) : slot_of region = Z.land region entry_mask.
Proof.
  unfold slot_of, entry_mask, num_entries.
  change (1024 - 1) with (Z.ones 10). by rewrite Z.land_ones.
Qed.

Lemma slot_of_bound (region : Z) : 0 <= slot_of region < num_entries.
Proof. unfold slot_of. by apply Z.mod_pos_bound. Qed.

Lemma live_obj_add (data : gmap Z Z) (r words r' : Z) :
  live_obj (add_live_obj data r words) r'
  = if decide (r = r') then wrap (live_obj data r + words) else live_obj data r'.
Proof.
  unfold add_live_obj. unfold live_obj at 1.
  rewrite lookup_insert. by case_decide.
Qed.

Lemma counters_in_range_add (data : gmap Z Z) (r words : Z) :
  counters_in_range data → counters_in_range (add_live_obj data r words).
Proof.
  intros Hd r' v. unfold add_live_obj. rewrite lookup_insert.
  case_decide; [| by apply Hd ].
  intros [= <-]. apply wrap_range.
Qed.

Lemma live_obj_in_range (data : gmap Z Z) (r : Z) :
  counters_in_range data → in_range (live_obj data r).
Proof.
  intros Hd. unfold live_obj. destruct (data !! r) as [v|] eqn:Hv; cbn.
  - by apply (Hd r).
  - unfold in_range. rewrite modulus_eq. lia.
Qed.

Lemma cached_for_insert (r : Z) (es : list CacheEntry) (i : nat) (e e' : CacheEntry) :
  es !! i = Some e →
  cached_for r (<[i:=e']> es) = cached_for r es - contribution r e + contribution r e'.
Proof.
  revert i. induction es as [| x es IH]; intros [| i] Hi; try done.
  - injection Hi as ->. cbn. lia.
  - cbn in Hi.
    change (cached_for r (<[S i:=e']> (x :: es)))
      with (contribution r x + cached_for r (<[i:=e']> es)).
    change (cached_for r (x :: es)) with (contribution r x + cached_for r es).
    rewrite (IH i Hi). lia.
Qed.

Lemma cached_for_zero (r : Z) (es : list CacheEntry) :
  (∀ e, e ∈ es → e = zero_entry) → cached_for r es = 0.
Proof.
  induction es as [| x es IH]; intros Hall; [ done |].
  change (cached_for r (x :: es)) with (contribution r x + cached_for r es).
  rewrite IH.
  - rewrite (Hall x) by left. unfold contribution. by case_decide.
  - intros e He. apply Hall. by right.
Qed.

(** Reading a slot: inside the array the entry stored there, outside it
    (never the case for a slot index) the zero entry. *)
Lemma entry_at_cases (es : list CacheEntry) (index : Z) :
  (es !! Z.to_nat index = Some (entry_at es index))
  ∨ (es !! Z.to_nat index = None ∧ entry_at es index = zero_entry).
Proof.
  unfold entry_at. destruct (es !! Z.to_nat index); [ by left | by right ].
Qed.

Lemma contribution_zero (r : Z) : contribution r zero_entry = 0.
Proof. unfold contribution. by case_decide. Qed.

(** Flushing a slot moves its words from the cache to the shared counter. *)
Lemma pending_total_evict_replace (r index : Z) (s : state) (e' : CacheEntry) :
  wrap (live_obj (summary_data (evict index s)) r
        + cached_for r (<[Z.to_nat index := e']> (entries s)))
  = wrap (pending_total r s
          + (if decide (is_Some (entries s !! Z.to_nat index))
             then contribution r e' else 0)).
Proof.
  unfold pending_total, evict. cbn [summary_data entries].
  rewrite live_obj_add.
  destruct (entry_at_cases (entries s) index) as [Hin | [Hout Hz]].
  - rewrite (cached_for_insert r _ _ _ e' Hin).
    destruct (decide (is_Some (entries s !! Z.to_nat index))) as [_ | Hn];
      [| exfalso; apply Hn; by eexists ].
    unfold contribution at 1.
    rewrite wrap_add_l. case_decide as Hr.
    + subst r. rewrite wrap_add_l. f_equal. lia.
    + f_equal. lia.
  - rewrite list_insert_ge by (by apply lookup_ge_None).
    destruct (decide (is_Some (entries s !! Z.to_nat index))) as [Hs | _];
      [ rewrite Hout in Hs; by destruct Hs |].
    rewrite Hz. cbn [region_id live_words zero_entry].
    rewrite wrap_add_l. case_decide.
    + subst r. rewrite wrap_add_l. f_equal. lia.
    + f_equal. lia.
Qed.

Lemma pending_total_evict_and_clear (r index : Z) (s : state) :
  pending_total r (evict_and_clear s index) = pending_total r s.
Proof.
  unfold evict_and_clear. unfold pending_total at 1. cbn [summary_data entries].
  change (entries (evict index s)) with (entries s).
  rewrite pending_total_evict_replace, contribution_zero.
  case_decide; rewrite Z.add_0_r; apply wrap_wrap.
Qed.

Lemma slot_in_array (region : Z) (es : list CacheEntry) :
  length es = Z.to_nat num_entries → is_Some (es !! Z.to_nat (slot_of region)).
Proof.
  intros Hlen. apply lookup_lt_is_Some. rewrite Hlen.
  pose proof (slot_of_bound region). lia.
Qed.

Lemma pending_total_push (r region words : Z) (s : state) :
  length (entries s) = Z.to_nat num_entries →
  pending_total r (push region words s)
  = wrap (pending_total r s + (if decide (region = r) then words else 0)).
Proof.
  intros Hlen. pose proof (slot_in_array region _ Hlen) as Hslot.
  unfold push. case_decide as Hhit.
  - unfold pending_total at 1. cbn [summary_data entries].
    destruct (entry_at_cases (entries s) (slot_of region)) as [Hin | [Hout _]];
      [| rewrite Hout in Hslot; by destruct Hslot ].
    rewrite (cached_for_insert r _ _ _ _ Hin).
    unfold pending_total, contribution. cbn [region_id live_words].
    rewrite Hhit. rewrite wrap_add_l. case_decide.
    + rewrite Z.add_assoc, wrap_add_r. f_equal. lia.
    + f_equal. lia.
  - unfold pending_total at 1. cbn [summary_data entries].
    change (entries (evict (slot_of region) s)) with (entries s).
    rewrite pending_total_evict_replace. rewrite decide_True by done.
    unfold contribution. cbn [region_id live_words]. done.
Qed.

Lemma well_formed_initial : well_formed initial.
Proof.
  split; cbn.
  - unfold entries0. apply length_replicate.
  - intros r v Hv. by rewrite lookup_empty in Hv.
Qed.

Lemma well_formed_push (region words : Z) (s : state) :
  well_formed s → well_formed (push region words s).
Proof.
  intros [Hlen Hd]. unfold push, evict. case_decide; split; cbn;
    rewrite ?length_insert; try done.
  by apply counters_in_range_add.
Qed.

Lemma well_formed_evict_and_clear (s : state) (index : Z) :
  well_formed s → well_formed (evict_and_clear s index).
Proof.
  intros [Hlen Hd]. split; cbn; rewrite ?length_insert; [ done |].
  by apply counters_in_range_add.
Qed.

Lemma push_all_cons (p : Z * Z) (ps : list (Z * Z)) (s : state) :
  push_all (p :: ps) s = push_all ps (push p.1 p.2 s).
Proof. reflexivity. Qed.

Lemma evict_in_order_cons (k : Z) (order : list Z) (s : state) :
  evict_in_order (k :: order) s = evict_in_order order (evict_and_clear s k).
Proof. reflexivity. Qed.

Lemma push_all_spec (r : Z) (ps : list (Z * Z)) (s : state) :
  well_formed s →
  well_formed (push_all ps s)
  ∧ pending_total r (push_all ps s) = wrap (pending_total r s + pushed_for r ps).
Proof.
  revert s. induction ps as [| [region words] ps IH]; intros s Hwf.
  - split; [ done |]. cbn. rewrite Z.add_0_r. unfold pending_total.
    by rewrite wrap_wrap.
  - rewrite push_all_cons. cbn [fst snd].
    destruct (IH (push region words s)) as [Hwf' Htot];
      [ by apply well_formed_push |].
    split; [ done |].
    rewrite Htot, pending_total_push by apply Hwf.
    rewrite wrap_add_l.
    change (pushed_for r ((region, words) :: ps))
      with (if decide (region = r) then words + pushed_for r ps
            else pushed_for r ps).
    case_decide; f_equal; lia.
Qed.

Lemma cleared_stays_cleared (s : state) (index : Z) (n : nat) :
  entries s !! n = Some zero_entry →
  entries (evict_and_clear s index) !! n = Some zero_entry.
Proof.
  intros Hn. cbn. destruct (decide (Z.to_nat index = n)) as [<- | Hne].
  - apply list_lookup_insert_eq. by apply lookup_lt_Some in Hn.
  - by rewrite list_lookup_insert_ne.
Qed.

Lemma evict_and_clear_clears (s : state) (index : Z) :
  (Z.to_nat index < length (entries s))%nat →
  entries (evict_and_clear s index) !! Z.to_nat index = Some zero_entry.
Proof. intros Hlt. cbn. by apply list_lookup_insert_eq. Qed.

(** Evicting the slots of [order], in that order: the totals to come are
    unchanged, and every slot named in [order] is left empty. *)
Lemma evict_in_order_spec (r : Z) (order : list Z) (s : state) :
  well_formed s →
  well_formed (evict_in_order order s)
  ∧ pending_total r (evict_in_order order s) = pending_total r s
  ∧ ∀ n : nat, (n < length (entries s))%nat →
      (entries s !! n = Some zero_entry ∨ ∃ k, k ∈ order ∧ Z.to_nat k = n) →
      entries (evict_in_order order s) !! n = Some zero_entry.
Proof.
  revert s. induction order as [| k order IH]; intros s Hwf.
  - split; [ done |]. split; [ done |].
    intros n _ [Hn | (k & Hk & _)]; [ done | by apply elem_of_nil in Hk ].
  - rewrite evict_in_order_cons.
    destruct (IH (evict_and_clear s k)) as (Hwf' & Htot & Hclr);
      [ by apply well_formed_evict_and_clear |].
    split; [ done |]. split; [ by rewrite Htot, pending_total_evict_and_clear |].
    intros n Hn Hcase. apply Hclr.
    { cbn. by rewrite length_insert. }
    destruct Hcase as [Hz | (k' & Hk' & <-)].
    + left. by apply cleared_stays_cleared.
    + apply elem_of_cons in Hk' as [-> | Hk'].
      * left. by apply evict_and_clear_clears.
      * right. by exists k'.
Qed.

(** Totals after evicting every slot, whatever the order and whatever was
    pushed before. *)
Lemma flushed_totals (r : Z) (ps : list (Z * Z)) (order : list Z) :
  (∀ k, 0 <= k < num_entries → k ∈ order) →
  live_obj (summary_data (evict_in_order order (push_all ps initial))) r
  = wrap (pushed_for r ps).
Proof.
  intros Hcover.
  destruct (push_all_spec r ps initial well_formed_initial) as [Hwf Hpush].
  destruct (evict_in_order_spec r order _ Hwf) as ([Hlen Hd] & Htot & Hclr).
  set (final := evict_in_order order (push_all ps initial)) in *.
  assert (Hzero : cached_for r (entries final) = 0).
  { apply cached_for_zero. intros e He.
    apply list_elem_of_lookup in He as [n Hn].
    assert (Hlt : (n < length (entries (push_all ps initial)))%nat).
    { destruct Hwf as [-> _]. rewrite <- Hlen. by apply lookup_lt_Some in Hn. }
    rewrite Hclr in Hn; [ by injection Hn | done |].
    right. exists (Z.of_nat n). split; [| lia ].
    apply Hcover. destruct Hwf as [Hl _]. rewrite Hl, num_entries_eq in Hlt.
    unfold num_entries. lia. }
  unfold pending_total in Htot at 1. rewrite Hzero, Z.add_0_r in Htot.
  rewrite wrap_in_range in Htot by (by apply live_obj_in_range).
  rewrite Htot, Hpush. unfold pending_total, initial. cbn [summary_data entries].
  unfold live_obj at 1. rewrite lookup_empty. cbn [default].
  rewrite (cached_for_zero r entries0).
  - rewrite wrap_add_l. f_equal.
  - intros e He. unfold entries0 in He. by apply elem_of_replicate in He as [-> _].
Qed.

(** C3: after any sequence of pushes into the fresh cache, with whatever
    slot collisions, evicting all slots - in any order - leaves in the
    shared counter of every region the sum of the live words pushed for it
    (as a [size_t]); [evict_all] is the order 0, 1, ... *)
Theorem stats_cache_round_trip (ps : list (Z * Z)) (order : list Z) (r : Z) :
  order ≡ₚ seqZ 0 num_entries →
  live_obj (summary_data (evict_in_order order (push_all ps initial))) r
  = wrap (pushed_for r ps)
  ∧ live_obj (summary_data (evict_all (push_all ps initial))) r
    = wrap (pushed_for r ps).
Proof.
  intros Hperm. split; apply flushed_totals; intros k Hk.
  - rewrite Hperm. apply elem_of_seqZ. lia.
  - apply elem_of_seqZ. lia.
Qed.

(** Regions 5 and 1029 share slot 5; evicting from the last slot down. *)
Lemma stats_cache_round_trip_witness :
  live_obj (summary_data (evict_in_order (reverse (seqZ 0 num_entries))
              (push_all [(5, 10); (1029, 7); (5, 3); (2, 1)] initial))) 5
  = wrap (pushed_for 5 [(5, 10); (1029, 7); (5, 3); (2, 1)])
  ∧ live_obj (summary_data (evict_all
              (push_all [(5, 10); (1029, 7); (5, 3); (2, 1)] initial))) 5
    = wrap (pushed_for 5 [(5, 10); (1029, 7); (5, 3); (2, 1)]).
Proof.
  apply (stats_cache_round_trip [(5, 10); (1029, 7); (5, 3); (2, 1)]
           (reverse (seqZ 0 num_entries)) 5).
  apply reverse_Permutation.
Defined.

Example stats_cache_collision :
  let s := push_all [(5, 10); (1029, 7); (5, 3); (2, 1)] initial in
  live_obj (summary_data s) 5 = 10
  ∧ live_obj (summary_data s) 1029 = 7
  ∧ live_obj (summary_data (evict_all s)) 5 = 13
  ∧ live_obj (summary_data (evict_all s)) 1029 = 7
  ∧ live_obj (summary_data (evict_all s)) 2 = 1.
Proof. vm_compute. repeat split. Qed.

End StatsCache.

(** ** The shadow region pool *)

Section ShadowRegionPool.

Import ParCompactionManager.

Lemma run_cons (o : op) (ops : list op) (pool : shadow_region_array) :
  run (o :: ops) pool
  = ((step o pool).1 :: (run ops (step o pool).2).1, (run ops (step o pool).2).2).
Proof.
  cbn [run]. destruct (step o pool) as [e pool']. cbn [fst snd].
  by destruct (run ops pool').
Qed.

(** The accounting of one run: what was pushed is in the pool, was popped,
    or was drained. *)
Lemma run_accounting (ops : list op) (pool : shadow_region_array) :
  (length (run ops pool).2 + successful_pops (run ops pool).1
     + drained (run ops pool).1
   = length pool + pushes (run ops pool).1)%nat.
Proof.
  revert pool. induction ops as [| o ops IH]; intros pool; [ cbn; lia |].
  rewrite run_cons. cbn [fst snd]. specialize (IH (step o pool).2).
  destruct o as [i | rp |]; [| destruct pool as [| top rest] |];
    cbn [step push_shadow_region_mt_safe push_shadow_region
         pop_shadow_region_mt_safe remove_all_shadow_regions fst snd
         pushes successful_pops drained length] in *; lia.
Qed.

(** An index that is not in the pool is not popped before it is pushed. *)
Lemma pop_needs_push (ops : list op) (pool : shadow_region_array)
  (i : Z) (l2 l3 : list event) :
  i ∉ pool → (run ops pool).1 = l2 ++ Popped i :: l3 → Pushed i ∈ l2.
Proof.
  revert pool l2. induction ops as [| o ops IH]; intros pool l2 Hi Hes.
  - cbn in Hes. by destruct l2.
  - rewrite run_cons in Hes. cbn [fst] in Hes.
    destruct l2 as [| e l2]; cbn [app] in Hes; injection Hes as He Hes.
    + exfalso. destruct o as [j | rp |]; [ done | | done ].
      destruct pool as [| top rest]; [ done |].
      cbn in He. injection He as ->. apply Hi. by left.
    + destruct (decide (e = Pushed i)) as [-> | Hne]; [ by left |].
      right. apply (IH (step o pool).2); [| done ].
      destruct o as [j | rp |]; cbn.
      * cbn in He. intros [-> | Hin]%elem_of_cons; [ by subst e | done ].
      * destruct pool as [| top rest]; [ done |]. cbn.
        intros Hin. apply Hi. by right.
      * apply not_elem_of_nil.
Qed.

Lemma step_NoDup (o : op) (pool : shadow_region_array) :
  NoDup pool →
  match o with Push i => i ∉ pool | _ => True end →
  NoDup (step o pool).2.
Proof.
  intros Hnd Hfresh. destruct o as [i | rp |]; cbn.
  - by apply NoDup_cons.
  - destruct pool as [| top rest]; [ done |]. cbn.
    by apply NoDup_cons in Hnd as [_ ?].
  - apply NoDup_nil_2.
Qed.

Lemma fresh_pushes_no_double_pop (ops : list op) (pool : shadow_region_array) :
  NoDup pool → pushes_fresh ops pool = true → no_double_pop (run ops pool).1.
Proof.
  revert pool. induction ops as [| o ops IH]; intros pool Hnd Hfresh.
  - intros l1 l2 l3 i Hes. cbn in Hes. by destruct l1.
  - cbn [pushes_fresh] in Hfresh. apply andb_true_iff in Hfresh as [Ho Hrest].
    assert (Hnd' : NoDup (step o pool).2).
    { apply step_NoDup; [ done |]. destruct o; [| done | done ].
      by apply bool_decide_eq_true in Ho. }
    intros l1 l2 l3 i Hes. rewrite run_cons in Hes. cbn [fst] in Hes.
    destruct l1 as [| e l1]; cbn [app] in Hes; injection Hes as He Hes.
    + apply (pop_needs_push ops (step o pool).2 i l2 l3); [| done ].
      destruct o as [j | rp |]; [ done | | done ].
      destruct pool as [| top rest]; [ done |].
      cbn in He. injection He as ->. cbn.
      by apply NoDup_cons in Hnd as [? _].
    + by apply (IH (step o pool).2 Hnd' Hrest l1 l2 l3 i).
Qed.

(** C8, as the code has it: from the empty pool, after any sequence of
    push, pop and remove_all, the pool holds as many indices as were
    pushed, less the successful pops, less the indices drained; and if no
    index is pushed while it is in the pool, no index is returned by pop
    twice without a push of it in between. *)
Theorem shadow_pool_accounting (ops : list op) :
  Z.of_nat (length (run ops []).2)
  = Z.of_nat (pushes (run ops []).1)
    - Z.of_nat (successful_pops (run ops []).1)
    - Z.of_nat (drained (run ops []).1)
  ∧ (pushes_fresh ops [] = true → no_double_pop (run ops []).1).
Proof.
  split.
  - pose proof (run_accounting ops []) as Hacc. cbn [length] in Hacc. lia.
  - apply fresh_pushes_no_double_pop, NoDup_nil_2.
Qed.

(** Region 7 is popped twice, and pushed again in between. *)
Lemma shadow_pool_accounting_witness :
  (run [Push 5; Push 7; Pop 0; Push 7; Pop 0; RemoveAll; Pop 0] []).1
  = [Pushed 5; Pushed 7; Popped 7; Pushed 7; Popped 7; Drained 1; Exhausted]
  ∧ no_double_pop (run [Push 5; Push 7; Pop 0; Push 7; Pop 0; RemoveAll; Pop 0] []).1.
Proof.
  split; [ reflexivity |].
  apply (proj2 (shadow_pool_accounting
                  [Push 5; Push 7; Pop 0; Push 7; Pop 0; RemoveAll; Pop 0])).
  reflexivity.
Defined.

(** C8, as stated, fails: the pool does not refuse an index it already
    holds, so after pushing region 5 twice two pops in a row return it. *)
Lemma shadow_pool_double_pop :
  (run [Push 5; Push 5; Pop 0; Pop 0] []).1
  = [Pushed 5; Pushed 5; Popped 5; Popped 5]
  ∧ ¬ no_double_pop (run [Push 5; Push 5; Pop 0; Pop 0] []).1.
Proof.
  split; [ reflexivity |]. intros Hno.
  specialize (Hno [Pushed 5; Pushed 5] [] [] 5 eq_refl).
  by apply elem_of_nil in Hno.
Qed.

End ShadowRegionPool.

(** ** The old generation's state machine *)

Section OldGeneration.

Import ShenandoahOldGeneration.

(** C1: [can_start_gc()] is true exactly in the states IDLE and
    WAITING_FOR_FILL, and false in FILLING, BOOTSTRAPPING, MARKING and
    WAITING_FOR_EVAC. *)
Theorem can_start_gc_states (g : t) :
  (can_start_gc g = true ↔ state g = IDLE ∨ state g = WAITING_FOR_FILL)
  ∧ can_start_gc g
    = match state g with
      | IDLE | WAITING_FOR_FILL => true
      | FILLING | BOOTSTRAPPING | MARKING | WAITING_FOR_EVAC => false
      end.
Proof.
  unfold can_start_gc, state. split.
  - rewrite orb_true_iff, !bool_decide_eq_true. done.
  - by destruct (_state g).
Qed.









End OldGeneration.

(** ** Purging the SATB buffers *)

Section SATBTransfer.

Import ShenandoahOldGeneration.











(** Without the purge the recycling leaves a record into region 2 behind,
    and the next marking crashes on it. *)
Example skipped_purge_crashes :
  cycle_steps 2 (collector_at RECYCLE_TRASH marking_heap) = Crashed 2097152
  ∧ ∃ c', cycle_steps 2 (collector_at RECYCLE_TRASH quiet_heap) = Running c'.
Proof. split; [ vm_compute; reflexivity | by eexists ]. Qed.

End SATBTransfer.

(** ** Archiving initialized mirrors *)

Section AOTMirror.

Import AOTClassInitializer.

Lemma name_eqb (ik : InstanceKlass) (s : string) :
  String.eqb (name ik) s = true ↔ name ik = s.
Proof. apply String.eqb_eq. Qed.

Lemma wrapper_support_class (ik : InstanceKlass) :
  (String.eqb (name ik) "jdk/internal/constant/PrimitiveClassDescImpl"
   || String.eqb (name ik) "jdk/internal/constant/ReferenceClassDescImpl"
   || String.eqb (name ik) "java/lang/constant/ConstantDescs") = true
  ↔ name ik ∈ wrapper_support_classes.
Proof.
  unfold wrapper_support_classes.
  rewrite !orb_true_iff, !name_eqb, !elem_of_cons, elem_of_nil. tauto.
Qed.

(** The value the query computes once its assertion has passed. *)
Lemma can_archive_value (b : Build) (env : Env) (ik : InstanceKlass) :
  b = Product ∨ is_in_buffer_space ik = false →
  can_archive_initialized_mirror b env ik
  = Ok (is_initing_classes_at_dump_time env
        && is_initialized ik
        && ((java_super ik =? Enum_klass env)
            || String.eqb (name ik) "jdk/internal/constant/PrimitiveClassDescImpl"
            || String.eqb (name ik) "jdk/internal/constant/ReferenceClassDescImpl"
            || String.eqb (name ik) "java/lang/constant/ConstantDescs")).
Proof.
  intros Hpre. unfold can_archive_initialized_mirror.
  assert (Hassert : vmassert b (negb (is_in_buffer_space ik)) "must be source klass"
                    = Ok ()).
  { destruct Hpre as [-> | ->]; [ done | apply vmassert_true ]. }
  rewrite Hassert. cbn [mbind result_bind].
  destruct (is_initing_classes_at_dump_time env), (is_initialized ik),
    (java_super ik =? Enum_klass env),
    (String.eqb (name ik) "jdk/internal/constant/PrimitiveClassDescImpl"),
    (String.eqb (name ik) "jdk/internal/constant/ReferenceClassDescImpl"),
    (String.eqb (name ik) "java/lang/constant/ConstantDescs"); reflexivity.
Qed.

Lemma can_archive_needs_initialized (b : Build) (env : Env) (ik : InstanceKlass) :
  can_archive_initialized_mirror b env ik = Ok true → is_initialized ik = true.
Proof.
  unfold can_archive_initialized_mirror.
  destruct (vmassert b (negb (is_in_buffer_space ik)) "must be source klass");
    [| done ].
  cbn [mbind result_bind].
  destruct (is_initing_classes_at_dump_time env); [| done ].
  destruct (is_initialized ik); done.
Qed.

(** C10: for a source klass (the function's assertion; a product build
    does not check it) [can_archive_initialized_mirror] returns, and
    returns true if and only if classes are initialized at dump time, the
    klass is initialized, and its direct superclass is java.lang.Enum or
    its name is one of jdk/internal/constant/PrimitiveClassDescImpl,
    jdk/internal/constant/ReferenceClassDescImpl and
    java/lang/constant/ConstantDescs; it never returns true for a klass
    that is not initialized. *)
Theorem can_archive_initialized_mirror_iff (b : Build) (env : Env)
  (ik : InstanceKlass) :
  b = Product ∨ is_in_buffer_space ik = false →
  (∃ answer, can_archive_initialized_mirror b env ik = Ok answer)
  ∧ (can_archive_initialized_mirror b env ik = Ok true
     ↔ is_initing_classes_at_dump_time env = true
       ∧ is_initialized ik = true
       ∧ (java_super ik = Enum_klass env ∨ name ik ∈ wrapper_support_classes))
  ∧ (is_initialized ik = false →
     ∀ b', can_archive_initialized_mirror b' env ik ≠ Ok true).
Proof.
  intros Hpre. rewrite (can_archive_value b env ik Hpre).
  split; [ by eexists |]. split.
  - rewrite <- wrapper_support_class, <- Z.eqb_eq.
    split.
    + intros [= Hv]. rewrite !andb_true_iff, !orb_true_iff in Hv.
      rewrite !orb_true_iff. tauto.
    + intros (-> & -> & Hor). rewrite !orb_true_iff in Hor. f_equal.
      cbn [andb]. rewrite !orb_true_iff. tauto.
  - intros Hinit b' Hret. apply can_archive_needs_initialized in Hret.
    congruence.
Qed.

(** The query on the enum sun.invoke.util.Wrapper in a debug build. *)
Lemma can_archive_initialized_mirror_iff_witness :
  (∃ answer,
     can_archive_initialized_mirror Debug dump_time_env wrapper_klass = Ok answer)
  ∧ (can_archive_initialized_mirror Debug dump_time_env wrapper_klass = Ok true
     ↔ is_initing_classes_at_dump_time dump_time_env = true
       ∧ is_initialized wrapper_klass = true
       ∧ (java_super wrapper_klass = Enum_klass dump_time_env
          ∨ name wrapper_klass ∈ wrapper_support_classes))
  ∧ (is_initialized wrapper_klass = false →
     ∀ b', can_archive_initialized_mirror b' dump_time_env wrapper_klass ≠ Ok true).
Proof.
  apply (can_archive_initialized_mirror_iff Debug dump_time_env wrapper_klass).
  right. reflexivity.
Defined.

Example can_archive_examples :
  can_archive_initialized_mirror Debug dump_time_env wrapper_klass = Ok true
  ∧ can_archive_initialized_mirror Debug dump_time_env
      {| name := "java/lang/constant/ConstantDescs"; is_initialized := true;
         java_super := 4096; is_in_buffer_space := false |} = Ok true
  ∧ can_archive_initialized_mirror Debug dump_time_env
      {| name := "java/lang/constant/ConstantDescs"; is_initialized := false;
         java_super := 4096; is_in_buffer_space := false |} = Ok false
  ∧ can_archive_initialized_mirror Debug dump_time_env
      {| name := "java/lang/String"; is_initialized := true;
         java_super := 4096; is_in_buffer_space := false |} = Ok false
  ∧ can_archive_initialized_mirror Debug
      {| is_initing_classes_at_dump_time := false; Enum_klass := 28672 |}
      wrapper_klass = Ok false.
Proof. repeat split. Qed.

End AOTMirror.

(** ** More on PSScannerTask: what the encoding keeps and what it loses *)

Section ScannerTaskEncoding.

Import PSScannerTask.

Lemma lor_tag_bit_set (p : Z) : Z.testbit p 0 = true → Z.lor p 1 = p.
Proof.
  intros Hbit. apply Z.bits_inj'. intros n Hn. rewrite Z.lor_spec.
  destruct (decide (n = 0)) as [-> | Hne].
  - by rewrite Hbit.
  - change 1 with (Z.ones 1). rewrite Z.ones_spec_high by lia.
    apply orb_false_r.
Qed.

Lemma low_bit_mod (p : Z) : p mod 2 = if Z.testbit p 0 then 1 else 0.
Proof. by rewrite Zmod_odd, Z.bit0_odd. Qed.

Lemma untag (p : Z) : in_range p → wrap (Z.lor p 1 - 1) = p - p mod 2.
Proof.
  intros Hrange. rewrite low_bit_mod.
  destruct (Z.testbit p 0) eqn:Hbit.
  - rewrite lor_tag_bit_set by done. apply wrap_in_range.
    assert (p ≠ 0) by (intros ->; done).
    unfold in_range in *. lia.
  - rewrite lor_tag_bit by done. replace (p + 1 - 1) with (p - 0) by lia.
    apply wrap_in_range. unfold in_range in *. lia.
Qed.

Lemma to_partial_array_state_tagged (b : Build) (p : Z) :
  to_partial_array_state b {| _holder := Z.lor p PartialArrayStateBit |}
  = Ok (wrap (Z.lor p 1 - 1)).
Proof.
  unfold to_partial_array_state.
  rewrite is_partial_array_state_testbit. cbn [_holder].
  by rewrite tagged_holder_bit, vmassert_true.
Qed.

(** X1: storing a PartialArrayState pointer and reading it back clears the
    pointer's low bit, in every build: the pointer comes back unchanged
    exactly when it is even. *)
Theorem scanner_task_round_trip_clears_low_bit (b : Build) (p : Z) :
  in_range p →
  from_partial_array_state b p ≫= to_partial_array_state b = Ok (p - p mod 2)
  ∧ (from_partial_array_state b p ≫= to_partial_array_state b = Ok p
     ↔ p mod 2 = 0).
Proof.
  intros Hrange. rewrite from_partial_array_state_ok.
  change (Ok ?t ≫= ?f) with (f t).
  rewrite to_partial_array_state_tagged, untag by done.
  split; [ done |]. split.
  - intros [= Heq]. lia.
  - intros ->. f_equal. lia.
Qed.

Lemma scanner_task_round_trip_clears_low_bit_witness :
  from_partial_array_state Debug 4099 ≫= to_partial_array_state Debug
  = Ok (4099 - 4099 mod 2)
  ∧ (from_partial_array_state Debug 4099 ≫= to_partial_array_state Debug = Ok 4099
     ↔ 4099 mod 2 = 0).
Proof.
  apply (scanner_task_round_trip_clears_low_bit Debug 4099).
  unfold in_range. rewrite modulus_eq. lia.
Defined.

Lemma from_oop_cases (b : Build) (a : Z) :
  from_oop b a = Ok {| _holder := a |}
  ∨ ∃ msg, from_oop b a = AssertionFailure msg.
Proof.
  unfold from_oop. cbn [_holder]. rewrite is_aligned_1.
  destruct b, (a =? 0); cbn; eauto.
Qed.

(** X2: with pointers aligned to at least two bytes the encoding is
    unambiguous: a task made from an oop is never the task made from a
    PartialArrayState pointer (aligned or not), and two aligned
    PartialArrayState pointers that make the same task are equal. *)
Theorem scanner_task_encoding_unambiguous (b : Build) (a p q k : Z) :
  1 <= k →
  is_aligned a (2 ^ k) = true →
  is_aligned p (2 ^ k) = true →
  is_aligned q (2 ^ k) = true →
  (∀ p', from_oop b a ≠ from_partial_array_state b p')
  ∧ (from_partial_array_state b p = from_partial_array_state b q → p = q).
Proof.
  intros Hk Ha Hp Hq.
  pose proof (aligned_low_bit a k Hk Ha) as Hbit.
  split.
  - intros p'. rewrite from_partial_array_state_ok.
    destruct (from_oop_cases b a) as [-> | [msg ->]]; [| done ].
    intros [= Heq]. rewrite Heq in Hbit.
    by rewrite tagged_holder_bit in Hbit.
  - rewrite !from_partial_array_state_ok. intros [= Heq].
    unfold PartialArrayStateBit in Heq.
    rewrite !lor_tag_bit in Heq by (by apply (aligned_low_bit _ k)). lia.
Qed.

Lemma scanner_task_encoding_unambiguous_witness :
  (∀ p', from_oop Debug 4096 ≠ from_partial_array_state Debug p')
  ∧ (from_partial_array_state Debug 8192 = from_partial_array_state Debug 12288
     → 8192 = 12288).
Proof.
  apply (scanner_task_encoding_unambiguous Debug 4096 8192 12288 3);
    [ lia | reflexivity | reflexivity | reflexivity ].
Defined.

(** X3: the null oop. A debug build constructs a task from an oop exactly
    when the oop is not null; a product build constructs it from any oop.
    The default-constructed task holds null, reads as an oop, and its
    [obj()] returns null in every build without tripping. *)
Theorem scanner_task_null_oop (b : Build) (o : Z) :
  ((∃ task, from_oop Debug o = Ok task) ↔ o ≠ 0)
  ∧ from_oop Product o = Ok {| _holder := o |}
  ∧ is_oop empty = true
  ∧ obj b empty = Ok 0
  ∧ from_oop Debug 0
    = AssertionFailure "Not allowed to set null task queue element".
Proof.
  split; [| by destruct b ].
  split.
  - intros [task Htask] ->. done.
  - intros Hnz. eexists. by apply from_oop_ok.
Qed.

End ScannerTaskEncoding.

(** ** The cursor over the shadow regions *)

Section ShadowRegionCursor.

Import ParCompactionManager.

Lemma move_repeatedly_in_range (k : nat) (workers : Z) (cm : t) :
  in_range (next_shadow_region cm) →
  in_range (next_shadow_region (move_repeatedly k workers cm)).
Proof.
  revert cm. induction k as [| k IH]; intros cm Hrange; [ done |].
  cbn [move_repeatedly]. apply IH. apply wrap_range.
Qed.

Lemma move_repeatedly_wrap (k : nat) (workers : Z) (cm : t) :
  wrap (next_shadow_region (move_repeatedly k workers cm))
  = wrap (next_shadow_region cm + Z.of_nat k * workers).
Proof.
  revert cm. induction k as [| k IH]; intros cm.
  - cbn [move_repeatedly]. f_equal. lia.
  - cbn [move_repeatedly]. rewrite IH.
    cbn [move_next_shadow_region_by snd next_shadow_region _next_shadow_region].
    rewrite wrap_add_l. unfold next_shadow_region. f_equal. lia.
Qed.

(** Where [k] moves from a fresh record leave the cursor. *)
Lemma move_repeatedly_from (k : nat) (workers record : Z) (cm : t) :
  in_range record →
  next_shadow_region (move_repeatedly k workers (set_next_shadow_region record cm))
  = wrap (record + Z.of_nat k * workers).
Proof.
  intros Hrange.
  rewrite <- (wrap_in_range (next_shadow_region _))
    by (by apply move_repeatedly_in_range).
  by rewrite move_repeatedly_wrap.
Qed.

(** X4: after [set_next_shadow_region(record)], [k] calls of
    [move_next_shadow_region_by(workers)] leave the cursor at
    [record + k * workers] modulo 2^64, and each call returns the cursor it
    has just stored. *)
Theorem move_next_shadow_region_stride (k : nat) (workers record : Z) (cm : t) :
  in_range record →
  next_shadow_region (move_repeatedly k workers (set_next_shadow_region record cm))
  = wrap (record + Z.of_nat k * workers)
  ∧ (move_next_shadow_region_by workers (move_repeatedly k workers
        (set_next_shadow_region record cm))).1
    = wrap (record + Z.of_nat (S k) * workers).
Proof.
  intros Hrange. split; [ by apply move_repeatedly_from |].
  cbn [move_next_shadow_region_by fst next_shadow_region _next_shadow_region].
  fold (next_shadow_region
          (move_repeatedly k workers (set_next_shadow_region record cm))).
  rewrite move_repeatedly_from, wrap_add_l by done. f_equal. lia.
Qed.

Lemma move_next_shadow_region_stride_witness :
  next_shadow_region (move_repeatedly 3 8 (set_next_shadow_region 5
                        {| _next_shadow_region := 0 |}))
  = wrap (5 + Z.of_nat 3 * 8)
  ∧ (move_next_shadow_region_by 8 (move_repeatedly 3 8
        (set_next_shadow_region 5 {| _next_shadow_region := 0 |}))).1
    = wrap (5 + Z.of_nat 4 * 8).
Proof.
  apply (move_next_shadow_region_stride 3 8 5 {| _next_shadow_region := 0 |}).
  unfold in_range. rewrite modulus_eq. lia.
Defined.

(** X5: two cursors that start in different residue classes modulo the
    number of workers and step by that number never meet, as long as
    neither wraps around. *)
Theorem shadow_region_strides_disjoint (workers r1 r2 : Z) (k1 k2 : nat)
  (cm1 cm2 : t) :
  0 < workers →
  0 <= r1 → 0 <= r2 →
  r1 mod workers ≠ r2 mod workers →
  r1 + Z.of_nat k1 * workers < modulus →
  r2 + Z.of_nat k2 * workers < modulus →
  next_shadow_region (move_repeatedly k1 workers (set_next_shadow_region r1 cm1))
  ≠ next_shadow_region (move_repeatedly k2 workers (set_next_shadow_region r2 cm2)).
Proof.
  intros Hw Hr1 Hr2 Hres Hb1 Hb2.
  assert (in_range r1) by (unfold in_range; nia).
  assert (in_range r2) by (unfold in_range; nia).
  rewrite !move_repeatedly_from by done.
  rewrite !wrap_in_range by (unfold in_range; nia).
  intros Heq. apply Hres.
  rewrite <- (Z.mod_add r1 (Z.of_nat k1) workers) by lia.
  rewrite <- (Z.mod_add r2 (Z.of_nat k2) workers) by lia.
  by rewrite Heq.
Qed.

Lemma shadow_region_strides_disjoint_witness :
  next_shadow_region (move_repeatedly 3 8 (set_next_shadow_region 5
                        {| _next_shadow_region := 0 |}))
  ≠ next_shadow_region (move_repeatedly 2 8 (set_next_shadow_region 6
                          {| _next_shadow_region := 0 |})).
Proof.
  apply (shadow_region_strides_disjoint 8 5 6 3 2);
    try (rewrite modulus_eq); try lia.
  vm_compute. discriminate.
Defined.

End ShadowRegionCursor.

(** ** The marking stats cache's index mask *)

Section StatsCacheMask.

Import ParCompactionManager.MarkingStatsCache.

(** X6: [num_entries] is the power of two 2^10, and masking with
    [entry_mask] keeps the low ten bits: for every region id the masked
    value is the id modulo [num_entries], an index inside the array
    [entries]; two ids get the same index exactly when they differ by a
    multiple of [num_entries]. *)
Theorem entry_mask_indexes_entries (region other : Z) :
  num_entries = 2 ^ 10
  ∧ Z.land region entry_mask = region mod num_entries
  ∧ 0 <= Z.land region entry_mask < num_entries
  ∧ (Z.to_nat (Z.land region entry_mask) < length entries0)%nat
  ∧ (Z.land region entry_mask = Z.land other entry_mask
     ↔ (num_entries | region - other)).
Proof.
  assert (Hmask : ∀ r, Z.land r entry_mask = r mod num_entries).
  { intros r. unfold entry_mask, num_entries.
    change (1024 - 1) with (Z.ones 10). by rewrite Z.land_ones. }
  assert (Hbound : 0 <= region mod num_entries < num_entries)
    by (by apply Z.mod_pos_bound).
  split; [ done |]. split; [ apply Hmask |]. rewrite !Hmask.
  split; [ done |]. split.
  - unfold entries0. rewrite length_replicate. lia.
  - split.
    + intros Heq. apply Z.mod_divide; [ done |].
      rewrite Zminus_mod, Heq, Z.sub_diag. done.
    + intros [c Hc]. replace region with (other + c * num_entries) by lia.
      by rewrite Z.mod_add.
Qed.

End StatsCacheMask.

(** ** The prototype header of a klass *)

Section KlassPrototypeHeader.

Import Klass.

(** X7: with compact object headers in use, a header whose narrow klass id
    is positive is read back by [prototype_header()] as
    [set_prototype_header] stored it, in every build. *)
Theorem prototype_header_round_trip (narrow_klass : Z → Z) (b : Build)
  (header : Z) (k : t) :
  0 < narrow_klass header →
  set_prototype_header true b header k ≫= prototype_header true narrow_klass b
  = Ok header.
Proof.
  intros Hpos. unfold set_prototype_header. rewrite vmassert_true.
  change (Ok () ≫= ?f) with (f ()). cbn beta.
  change (mret ?x ≫= ?f) with (f x).
  unfold prototype_header. cbn [_prototype_header].
  apply Z.ltb_lt in Hpos. by rewrite Hpos, !vmassert_true.
Qed.

Lemma prototype_header_round_trip_witness :
  set_prototype_header true Debug (2 ^ 42 + 1) plain_klass
    ≫= prototype_header true narrow_klass_above_42 Debug
  = Ok (2 ^ 42 + 1).
Proof.
  apply (prototype_header_round_trip narrow_klass_above_42 Debug (2 ^ 42 + 1)).
  reflexivity.
Defined.

(** X8: [set_prototype_header] does not look at the narrow klass id. A
    header whose id is not positive is stored by a debug build, and the
    next [prototype_header()] of that build trips its assertion, while a
    product build returns the header. Without compact object headers a
    debug build trips in both functions. *)
Theorem prototype_header_unchecked_store (narrow_klass : Z → Z) (header : Z)
  (k : t) :
  narrow_klass header <= 0 →
  (∃ k', set_prototype_header true Debug header k = Ok k'
         ∧ _prototype_header k' = header
         ∧ prototype_header true narrow_klass Debug k'
           = AssertionFailure "Klass: invalid prototype"
         ∧ prototype_header true narrow_klass Product k' = Ok header)
  ∧ set_prototype_header false Debug header k
    = AssertionFailure "only with compact headers"
  ∧ prototype_header false narrow_klass Debug k
    = AssertionFailure "only use with compact object headers".
Proof.
  intros Hnonpos. split; [| done ].
  eexists. split; [ reflexivity |]. split; [ done |]. split; [| done ].
  unfold prototype_header. cbn [_prototype_header].
  assert (Hlt : (0 <? narrow_klass header) = false) by (apply Z.ltb_ge; lia).
  by rewrite Hlt.
Qed.

Lemma prototype_header_unchecked_store_witness :
  (∃ k', set_prototype_header true Debug 5 plain_klass = Ok k'
         ∧ _prototype_header k' = 5
         ∧ prototype_header true narrow_klass_above_42 Debug k'
           = AssertionFailure "Klass: invalid prototype"
         ∧ prototype_header true narrow_klass_above_42 Product k' = Ok 5)
  ∧ set_prototype_header false Debug 5 plain_klass
    = AssertionFailure "only with compact headers"
  ∧ prototype_header false narrow_klass_above_42 Debug plain_klass
    = AssertionFailure "only use with compact object headers".
Proof.
  apply (prototype_header_unchecked_store narrow_klass_above_42 5 plain_klass).
  vm_compute. discriminate.
Defined.

End KlassPrototypeHeader.

(** ** The creation time probe *)

Section CreationTimeProbe.

Import CreationTimeHelper.

Lemma land_btime (m : Z) :
  (Z.land m STATX_BTIME =? 0) = negb (Z.testbit m 11).
Proof.
  assert (Hbits : ∀ n, 0 <= n →
            Z.testbit (Z.land m STATX_BTIME) n = Z.testbit m 11 && (11 =? n)).
  { intros n Hn. rewrite Z.land_spec. change STATX_BTIME with (2 ^ 11).
    rewrite Z.pow2_bits_eqb by lia.
    destruct (Z.eqb_spec 11 n) as [<- | Hne]; [ done | by rewrite !andb_false_r ]. }
  destruct (Z.testbit m 11) eqn:Hbit; cbn [negb].
  - apply Z.eqb_neq. intros Hz.
    specialize (Hbits 11 ltac:(lia)). rewrite Hz, Z.bits_0 in Hbits. done.
  - apply Z.eqb_eq. apply Z.bits_inj'. intros n Hn.
    by rewrite Hbits, Z.bits_0.
Qed.

Lemma requested_mask : Z.lor STATX_BASIC_STATS STATX_BTIME = 4095.
Proof. reflexivity. Qed.

(** The value returned, path by path. *)
Lemma creation_time_result (linux : bool) (env : Env) (file : Z) :
  (linuxIsCreationTimeSupported linux env file).1 = true
  ↔ linux = true ∧ file ≠ 0
    ∧ ∃ f chars stx',
        dlsym env "statx" = Some f
        ∧ GetStringUTFChars env file = Some chars
        ∧ f AT_FDCWD chars AT_SYMLINK_NOFOLLOW 4095 (memset_statx 191) = (0, stx')
        ∧ Z.testbit (stx_mask stx') 11 = true.
Proof.
  unfold linuxIsCreationTimeSupported. rewrite requested_mask.
  destruct linux; [| split; [ done | by intros [? _] ] ].
  destruct (dlsym env "statx") as [f |];
    [| split; [ done | by intros (_ & _ & ? & ? & ? & ? & _) ] ].
  destruct (Z.eqb_spec file 0) as [-> | Hfile];
    [ split; [ done | by intros (_ & ? & _) ] |].
  destruct (GetStringUTFChars env file) as [chars |];
    [| split; [ done | by intros (_ & _ & ? & ? & ? & _ & ? & _) ] ].
  destruct (f AT_FDCWD chars AT_SYMLINK_NOFOLLOW 4095 (memset_statx 191))
    as [ret stx'] eqn:Hcall.
  rewrite land_btime, negb_involutive.
  destruct (Z.eqb_spec ret 0) as [-> | Hret]; cbn [negb fst].
  - destruct (Z.testbit (stx_mask stx') 11) eqn:Hbit; cbn [fst].
    + split; [| done ]. intros _. split; [ done |]. split; [ done |].
      by exists f, chars, stx'.
    + split; [ done |].
      intros (_ & _ & f' & chars' & stx'' & [= <-] & [= <-] & Hcall' & Hbit').
      rewrite Hcall in Hcall'. injection Hcall' as <-. congruence.
  - split; [ done |].
    intros (_ & _ & f' & chars' & stx'' & [= <-] & [= <-] & Hcall' & _).
    rewrite Hcall in Hcall'. by injection Hcall' as ? _.
Qed.

(** X9: the probe answers JNI_TRUE exactly when it is built for Linux,
    [dlsym] finds statx, the file handle is not NULL, its characters can be
    obtained, and statx - called on the current directory with
    AT_SYMLINK_NOFOLLOW and the mask 0xfff on a buffer filled with 0xbf -
    returns 0 and leaves the STATX_BTIME bit set in [stx_mask]. *)
Theorem creation_time_supported_iff (linux : bool) (env : Env) (file : Z) :
  (linuxIsCreationTimeSupported linux env file).1 = true
  ↔ linux = true ∧ file ≠ 0
    ∧ ∃ f chars stx',
        dlsym env "statx" = Some f
        ∧ GetStringUTFChars env file = Some chars
        ∧ f AT_FDCWD chars AT_SYMLINK_NOFOLLOW 4095 (memset_statx 191) = (0, stx')
        ∧ Z.testbit (stx_mask stx') 11 = true.
Proof. apply creation_time_result. Qed.

(** X10: on every path the character arrays obtained from
    [GetStringUTFChars] are exactly those given back with
    [ReleaseStringUTFChars]; statx is called on exactly those characters,
    at most once, and never for a NULL file handle. *)
Theorem creation_time_chars_released (linux : bool) (env : Env) (file : Z) :
  released (linuxIsCreationTimeSupported linux env file).2
  = acquired env (linuxIsCreationTimeSupported linux env file).2
  ∧ statx_paths (linuxIsCreationTimeSupported linux env file).2
    = (acquired env (linuxIsCreationTimeSupported linux env file).2).*2
  ∧ (length (statx_paths (linuxIsCreationTimeSupported linux env file).2) <= 1)%nat
  ∧ (file = 0 → statx_paths (linuxIsCreationTimeSupported linux env file).2 = []).
Proof.
  unfold linuxIsCreationTimeSupported.
  destruct linux; [| cbn; repeat split; lia ].
  destruct (dlsym env "statx") as [f |]; [| cbn; repeat split; lia ].
  destruct (Z.eqb_spec file 0) as [-> | Hfile]; [ cbn; repeat split; lia |].
  destruct (GetStringUTFChars env file) as [chars |] eqn:Hchars.
  - destruct (f _ _ _ _ _) as [ret stx'].
    assert (Hrel : bool_decide (is_Some (Some chars)) = true)
      by (apply bool_decide_eq_true; by eexists).
    rewrite Hrel. cbn [negb andb app].
    assert (Hcalls : ∀ mask,
      let calls := [GetChars file; Statx AT_FDCWD chars AT_SYMLINK_NOFOLLOW mask;
                    ReleaseChars file chars] in
      released calls = acquired env calls
      ∧ statx_paths calls = (acquired env calls).*2
      ∧ (length (statx_paths calls) <= 1)%nat
      ∧ (file = 0 → statx_paths calls = [])).
    { intros mask. cbn. rewrite Hchars. cbn. repeat split; try lia; done. }
    destruct (negb (ret =? 0)); [ apply Hcalls |].
    destruct (negb _); apply Hcalls.
  - cbn. rewrite Hchars. cbn. repeat split; try lia; done.
Qed.

(** X11: the fill byte 0xbf has the STATX_BTIME bit in it. If statx returns
    0 and leaves the buffer as it received it, the probe answers
    JNI_TRUE. *)
Theorem creation_time_unwritten_buffer (env : Env) (file : Z) (f : statx_func)
  (chars : string) :
  dlsym env "statx" = Some f →
  file ≠ 0 →
  GetStringUTFChars env file = Some chars →
  f AT_FDCWD chars AT_SYMLINK_NOFOLLOW 4095 (memset_statx 191)
  = (0, memset_statx 191) →
  (linuxIsCreationTimeSupported true env file).1 = true.
Proof.
  intros Hsym Hfile Hchars Hcall. apply creation_time_result.
  split; [ done |]. split; [ done |].
  exists f, chars, (memset_statx 191). by repeat split.
Qed.

Lemma creation_time_unwritten_buffer_witness :
  (linuxIsCreationTimeSupported true (env_with (Some statx_silent)) 7).1 = true.
Proof.
  apply (creation_time_unwritten_buffer (env_with (Some statx_silent)) 7
           statx_silent "/tmp/f"); [ reflexivity | lia | reflexivity | reflexivity ].
Defined.

Example creation_time_probe_runs :
  linuxIsCreationTimeSupported true (env_with (Some statx_all_bits)) 7
  = (true, [GetChars 7; Statx (-100) "/tmp/f" 256 4095; ReleaseChars 7 "/tmp/f"])
  ∧ linuxIsCreationTimeSupported true (env_with (Some statx_no_bits)) 7
    = (false, [GetChars 7; Statx (-100) "/tmp/f" 256 4095; ReleaseChars 7 "/tmp/f"])
  ∧ linuxIsCreationTimeSupported true (env_with (Some statx_failing)) 7
    = (false, [GetChars 7; Statx (-100) "/tmp/f" 256 4095; ReleaseChars 7 "/tmp/f"])
  ∧ (linuxIsCreationTimeSupported true (env_with (Some statx_all_bits)) 9).1 = false
  ∧ linuxIsCreationTimeSupported true (env_with None) 7 = (false, [])
  ∧ linuxIsCreationTimeSupported false (env_with (Some statx_all_bits)) 7 = (false, []).
Proof. repeat split. Qed.

End CreationTimeProbe.

(** ** The assertion of the mirror query *)

Section AOTMirrorAssertion.

Import AOTClassInitializer.

(** X12: a debug build of [can_archive_initialized_mirror] trips its
    assertion exactly for a klass in the archive builder's buffer space,
    whatever the configuration; a product build always answers; and when
    the debug build answers, the product build gives the same answer. *)
Theorem can_archive_source_klass_assertion (env : Env) (ik : InstanceKlass) :
  ((∃ msg, can_archive_initialized_mirror Debug env ik = AssertionFailure msg)
   ↔ is_in_buffer_space ik = true)
  ∧ (∃ answer, can_archive_initialized_mirror Product env ik = Ok answer)
  ∧ (∀ answer, can_archive_initialized_mirror Debug env ik = Ok answer →
               can_archive_initialized_mirror Product env ik = Ok answer).
Proof.
  rewrite (can_archive_value Product env ik) by (by left).
  split; [| split; [ by eexists |] ].
  - destruct (is_in_buffer_space ik) eqn:Hbuf.
    + split; [ done |]. intros _.
      unfold can_archive_initialized_mirror. rewrite Hbuf. by eexists.
    + rewrite (can_archive_value Debug env ik) by (by right).
      split; [ by intros [msg ?] | done ].
  - intros answer Hdebug.
    destruct (is_in_buffer_space ik) eqn:Hbuf.
    + unfold can_archive_initialized_mirror in Hdebug. by rewrite Hbuf in Hdebug.
    + by rewrite (can_archive_value Debug env ik) in Hdebug by (by right).
Qed.

End AOTMirrorAssertion.
